(** * Design patterns in TypeScript: Strategy, Command, Abstract Factory

    A shallow embedding of the three example scripts of the repository
    (the strategy script, [patterns/behavioral/command.ts] and
    [patterns/creational/abstractFactory.ts]) and the properties of their
    composers (Context, Item, Invoker, OrderManager), strategies, commands
    and factories.

    The scripts are single-threaded JavaScript: an operation is a function
    from the store of mutable arrays to a completion (normal or thrown), the
    store it leaves, and the lines it wrote to the console. *)

From Stdlib Require Import String Ascii List Sorted Permutation Lia.
From Stdlib Require OrderedTypeEx.
From stdpp Require Import base option list strings sorting.

Local Open Scope string_scope.
Local Open Scope list_scope.
Local Open Scope stdpp_scope.

(** ** The runtime: completions, the console and the store *)

Module Runtime.

(** The only exception the scripts can raise: reading the property [property]
    of [undefined].  [InvalidReference] stands for a reference that no
    allocation produced; no script creates one. *)
Inductive error : Type :=
  | TypeError (property : string)
  | InvalidReference.

Inductive completion (A : Type) : Type :=
  | Normal (a : A)
  | Throw (e : error).
Arguments Normal {A} a.
Arguments Throw {A} e.

(** What one operation leaves behind.  [printed] holds the lines given to
    [console.log], oldest first; a line once printed stays printed. *)
Record run (S A : Type) : Type := Run {
  outcome : completion A;
  final : S;
  printed : list string
}.
Arguments Run {S A} outcome final printed.
Arguments outcome {S A} r.
Arguments final {S A} r.
Arguments printed {S A} r.

Definition Js (S A : Type) : Type := S -> run S A.

Definition ret {S A} (a : A) : Js S A := fun s => Run (Normal a) s [].

(** Statement sequencing: a throw skips the rest, keeping the store and
    the console lines reached so far. *)
Definition bind {S A B} (m : Js S A) (k : A -> Js S B) : Js S B :=
  fun s =>
    let r := m s in
    match outcome r with
    | Normal a =>
        let r' := k a (final r) in
        Run (outcome r') (final r') (printed r ++ printed r')
    | Throw e => Run (Throw e) (final r) (printed r)
    end.

Definition throw {S A} (e : error) : Js S A := fun s => Run (Throw e) s [].

(** [console.log(line)] *)
Definition console_log {S} (line : string) : Js S unit :=
  fun s => Run (Normal tt) s [line].

(** A field declared without an initializer holds [undefined] until it is
    assigned. *)
Inductive slot (A : Type) : Type :=
  | undefined
  | bound (a : A).
Arguments undefined {A}.
Arguments bound {A} a.

Definition is_bound {A} (x : slot A) : bool :=
  match x with undefined => false | bound _ => true end.

(** Arrays are objects: a variable holds a reference, the store holds the
    elements.  A reference is the index of its array in the store. *)
Definition ref : Type := nat.
Abbreviation store E := (list (list E)) (only parsing).

Section Arrays.
Context {E : Type}.

(** An array literal or any other fresh array. *)
Definition Array_new (elements : list E) : Js (store E) ref :=
  fun h => Run (Normal (List.length h)) (h ++ [elements]) [].

Definition Array_read (r : ref) : Js (store E) (list E) :=
  fun h =>
    match h !! r with
    | Some a => Run (Normal a) h []
    | None => Run (Throw InvalidReference) h []
    end.

(** In-place update of the array behind [r]: every holder of [r] sees it. *)
Definition Array_update (f : list E -> list E) (r : ref) : Js (store E) unit :=
  fun h =>
    match h !! r with
    | Some a => Run (Normal tt) (<[r := f a]> h) []
    | None => Run (Throw InvalidReference) h []
    end.

(** [a.push(x)] *)
Definition Array_push (r : ref) (x : E) : Js (store E) unit :=
  Array_update (fun a => a ++ [x]) r.

(** [a.reverse()] reverses in place and returns [a] itself. *)
Definition Array_reverse (r : ref) : Js (store E) ref :=
  bind (Array_update (@rev E) r) (fun _ => ret r).

(** [a.filter(p)] leaves [a] alone and returns a fresh array. *)
Definition Array_filter (p : E -> bool) (r : ref) : Js (store E) ref :=
  bind (Array_read r) (fun a => Array_new (List.filter p a)).
End Arrays.

(** [a.sort()] without a comparator orders strings by their code units,
    keeps equal elements in their order, sorts in place and returns [a]
    itself.  Strings are modelled with 8-bit code units. *)
Fixpoint sort_insert (x : string) (l : list string) : list string :=
  match l with
  | [] => [x]
  | y :: l' => if String.leb x y then x :: l else y :: sort_insert x l'
  end.

Fixpoint code_unit_sort (l : list string) : list string :=
  match l with
  | [] => []
  | x :: l' => sort_insert x (code_unit_sort l')
  end.

(** The order [a.sort()] establishes. *)
Definition code_unit_le (x y : string) : Prop := String.leb x y = true.

Definition Array_sort (r : ref) : Js (store string) ref :=
  bind (Array_update code_unit_sort r) (fun _ => ret r).

(** [a.join(sep)] *)
Definition Array_join (sep : string) (r : ref) : Js (store string) string :=
  bind (Array_read r) (fun a => ret (String.concat sep a)).

End Runtime.

Import Runtime.

Declare Scope js_scope.
Delimit Scope js_scope with js.
Notation "x <- m ;; k" := (bind m (fun x => k))
  (at level 100, m at next level, right associativity) : js_scope.
Notation "m ;;; k" := (bind m (fun _ => k))
  (at level 100, right associativity) : js_scope.

Local Open Scope js_scope.

(** ** The strategy script *)

Module strategy.

Module abstractExample.

(** [interface Strategy { doAlgorithm(data: string[]): string[] }] *)
Record Strategy : Type := { doAlgorithm : ref -> Js (store string) ref }.

Record Context : Type := { strategy : slot Strategy }.

(** [constructor(strategy: Strategy)] *)
Definition new_Context (strategy : Strategy) : Context :=
  {| strategy := bound strategy |}.

Definition setStrategy (strategy : Strategy) (this : Context) : Context :=
  {| strategy := bound strategy |}.

(** The array literal is evaluated after [this.strategy.doAlgorithm] has been
    looked up, so an unbound strategy throws before anything is allocated. *)
Definition doSomeBusinessLogic (this : Context) : Js (store string) unit :=
  console_log "Context: Sorting data using the strategy (not sure how it'll do it)" ;;;
  match strategy this with
  | undefined => throw (TypeError "doAlgorithm")
  | bound s =>
      data <- Array_new ["a"; "b"; "c"; "d"; "e"] ;;
      result <- doAlgorithm s data ;;
      line <- Array_join "," result ;;
      console_log line
  end.

Definition ConcreteStrategyA : Strategy :=
  {| doAlgorithm data := Array_sort data |}.

Definition ConcreteStrategyB : Strategy :=
  {| doAlgorithm data := Array_reverse data |}.

(** The client code of the example. *)
Definition script : Js (store string) unit :=
  let context := new_Context ConcreteStrategyA in
  console_log "Client: Strategy is set to normal sorting." ;;;
  doSomeBusinessLogic context ;;;
  console_log EmptyString ;;;
  console_log "Client: Strategy is set to reverse sorting." ;;;
  let context := setStrategy ConcreteStrategyB context in
  doSomeBusinessLogic context.

(** The calls a client can make on a Context it holds. *)
Inductive call : Type :=
| call_setStrategy (strategy : Strategy)
| call_doSomeBusinessLogic.

(** The Context object after a sequence of calls; only the setter writes
    to it. *)
Definition after_call (this : Context) (c : call) : Context :=
  match c with
  | call_setStrategy s => setStrategy s this
  | call_doSomeBusinessLogic => this
  end.

Definition after_calls (this : Context) (cs : list call) : Context :=
  fold_left after_call cs this.

(** [n] calls of [doSomeBusinessLogic], one after the other. *)
Fixpoint repeat_doSomeBusinessLogic (n : nat) (this : Context)
  : Js (store string) unit :=
  match n with
  | O => ret tt
  | S n' => doSomeBusinessLogic this ;;; repeat_doSomeBusinessLogic n' this
  end.

End abstractExample.

Module concreteExample.

Section Numbers.

(** The numbers of JavaScript and the text a template literal turns one
    into belong to the runtime; the classes below do nothing else with an
    amount than pass it on and print it. *)
Variable number : Type.
Variable Number_toString : number -> string.

(** [interface PaymentStrategy { pay(amount: number): void }] *)
Record PaymentStrategy : Type := { pay : number -> Js (store string) unit }.

Definition CreditCardStrategy : PaymentStrategy :=
  {| pay amount :=
       console_log ("Paid " +:+ Number_toString amount +:+ " using credit card.") |}.

Definition PayPalStrategy : PaymentStrategy :=
  {| pay amount :=
       console_log ("Paid " +:+ Number_toString amount +:+ " using PayPal.") |}.

Record Item : Type := {
  price : number;
  paymentStrategy : slot PaymentStrategy
}.

Definition new_Item (price : number) (paymentStrategy : PaymentStrategy) : Item :=
  {| price := price; paymentStrategy := bound paymentStrategy |}.

Definition buy (this : Item) : Js (store string) unit :=
  match paymentStrategy this with
  | undefined => throw (TypeError "pay")
  | bound s => pay s (price this)
  end.

(** The client code, for the two prices it constructs its items with (the
    literals 100 and 200 in the example). *)
Definition script (price1 price2 : number) : Js (store string) unit :=
  let item := new_Item price1 CreditCardStrategy in
  buy item ;;;
  console_log EmptyString ;;;
  let item2 := new_Item price2 PayPalStrategy in
  buy item2.

End Numbers.

Arguments pay {number} p amount.
Arguments price {number} i.
Arguments paymentStrategy {number} i.
Arguments new_Item {number} price paymentStrategy.
Arguments buy {number} this.

End concreteExample.

End strategy.

(** ** [patterns/behavioral/command.ts] *)

Module command.

Module abstractExample.

(** [interface Command { execute(): void }].  The example keeps no arrays,
    so its store is empty. *)
Record Command : Type := { execute : Js unit unit }.

Definition SimpleCommand (payload : string) : Command :=
  {| execute :=
       console_log
         ("SimpleCommand: See, I can do simple things like printing ("
            +:+ payload +:+ ")") |}.

(** The class has no fields. *)
Inductive Receiver : Type := new_Receiver.

Definition doSomething (this : Receiver) (a : string) : Js unit unit :=
  console_log ("Receiver: Working on (" +:+ a +:+ ".)").

Definition doSomethingElse (this : Receiver) (b : string) : Js unit unit :=
  console_log ("Receiver: Also working on (" +:+ b +:+ ".)").

Definition ComplexCommand (receiver : Receiver) (a b : string) : Command :=
  {| execute :=
       console_log "ComplexCommand: Complex stuff should be done by a receiver object." ;;;
       doSomething receiver a ;;;
       doSomethingElse receiver b |}.

(** Both fields are declared without initializer and the class has no
    constructor. *)
Record Invoker : Type := {
  onStart : slot Command;
  onFinish : slot Command
}.

Definition new_Invoker : Invoker :=
  {| onStart := undefined; onFinish := undefined |}.

Definition setOnStart (command : Command) (this : Invoker) : Invoker :=
  {| onStart := bound command; onFinish := onFinish this |}.

Definition setOnFinish (command : Command) (this : Invoker) : Invoker :=
  {| onStart := onStart this; onFinish := bound command |}.

(** [return object.execute !== undefined]: reading [execute] of [undefined]
    throws; a Command always has the member. *)
Definition isCommand (object : slot Command) : Js unit bool :=
  match object with
  | undefined => throw (TypeError "execute")
  | bound _ => ret true
  end.

(** [object.execute()] *)
Definition call_execute (object : slot Command) : Js unit unit :=
  match object with
  | undefined => throw (TypeError "execute")
  | bound command => execute command
  end.

Definition doSomethingImportant (this : Invoker) : Js unit unit :=
  console_log "Invoker: Does anybody want something done before I begin?" ;;;
  start <- isCommand (onStart this) ;;
  (if start then call_execute (onStart this) else ret tt) ;;;
  console_log "Invoker: ...doing something really important..." ;;;
  console_log "Invoker: Does anybody want something done after I finish?" ;;;
  finish <- isCommand (onFinish this) ;;
  if finish then call_execute (onFinish this) else ret tt.

Definition script : Js unit unit :=
  let invoker := new_Invoker in
  let invoker := setOnStart (SimpleCommand "Say Hi!") invoker in
  let receiver := new_Receiver in
  let invoker :=
    setOnFinish (ComplexCommand receiver "Send email" "Save report") invoker in
  doSomethingImportant invoker.

(** The setter calls a client can make on an Invoker it holds. *)
Inductive setter : Type :=
| call_setOnStart (command : Command)
| call_setOnFinish (command : Command).

Definition after_setter (this : Invoker) (c : setter) : Invoker :=
  match c with
  | call_setOnStart command => setOnStart command this
  | call_setOnFinish command => setOnFinish command this
  end.

Definition is_setOnStart (c : setter) : bool :=
  match c with call_setOnStart _ => true | call_setOnFinish _ => false end.

Definition is_setOnFinish (c : setter) : bool :=
  match c with call_setOnStart _ => false | call_setOnFinish _ => true end.

End abstractExample.

Module concreteExample.

(** The element type [{ id: string }] of the orders list. *)
Record Order : Type := { id : string }.

(** [abstract class Command { abstract execute(orders, ...args): void }];
    no command of the script reads the further arguments, and the client
    passes none. *)
Record Command : Type := { execute : ref -> Js (store Order) unit }.

Record OrderManager : Type := { orders : ref }.

(** [private orders: { id: string }[] = []] *)
Definition new_OrderManager : Js (store Order) OrderManager :=
  list_ref <- Array_new [] ;;
  ret {| orders := list_ref |}.

Definition manager_execute (this : OrderManager) (command : Command)
  : Js (store Order) unit :=
  execute command (orders this).

Definition PlaceOrderCommand (order this_id : string) : Command :=
  {| execute orders :=
       Array_push orders {| id := this_id |} ;;;
       console_log
         ("You have successfully ordered " +:+ order +:+ " (" +:+ this_id +:+ ")") |}.

(** The assignment [orders = orders.filter(...)] writes the parameter, a
    local variable of [execute]; the filtered array is a fresh one. *)
Definition CancelOrderCommand (this_id : string) : Command :=
  {| execute orders :=
       orders <- Array_filter (fun order => negb (String.eqb (id order) this_id)) orders ;;
       console_log ("You have canceled your order " +:+ this_id) |}.

Definition TrackOrderCommand (this_id : string) : Command :=
  {| execute _ :=
       console_log ("Your order " +:+ this_id +:+ " will arrive in 20 minutes.") |}.

Definition script : Js (store Order) OrderManager :=
  manager <- new_OrderManager ;;
  manager_execute manager (PlaceOrderCommand "Pad Thai" "1234") ;;;
  manager_execute manager (TrackOrderCommand "1234") ;;;
  manager_execute manager (CancelOrderCommand "1234") ;;;
  ret manager.

(** The commands a client can issue, as constructor calls. *)
Inductive request : Type :=
| place (order this_id : string)
| track (this_id : string)
| cancel (this_id : string).

Definition command_of (q : request) : Command :=
  match q with
  | place order this_id => PlaceOrderCommand order this_id
  | track this_id => TrackOrderCommand this_id
  | cancel this_id => CancelOrderCommand this_id
  end.

(** [manager.execute(...)] for each request, in order. *)
Fixpoint execute_all (this : OrderManager) (qs : list request)
  : Js (store Order) unit :=
  match qs with
  | [] => ret tt
  | q :: qs' => manager_execute this (command_of q) ;;; execute_all this qs'
  end.

(** The orders a sequence of requests asks to place, and the lines it is
    answered with. *)
Definition placed (q : request) : list Order :=
  match q with
  | place _ this_id => [{| id := this_id |}]
  | track _ | cancel _ => []
  end.

Definition answer (q : request) : string :=
  match q with
  | place order this_id =>
      "You have successfully ordered " +:+ order +:+ " (" +:+ this_id +:+ ")"
  | track this_id => "Your order " +:+ this_id +:+ " will arrive in 20 minutes."
  | cancel this_id => "You have canceled your order " +:+ this_id
  end.

End concreteExample.

End command.

(** ** [patterns/creational/abstractFactory.ts] *)

Module abstractFactory.

Module abstractExample.

(** The classes implementing [AbstractProductA]; none has fields. *)
Inductive AbstractProductA : Type :=
| ConcreteProductA1
| ConcreteProductA2.

Definition usefulFunctionA (this : AbstractProductA) : string :=
  match this with
  | ConcreteProductA1 => "The result of the product A1."
  | ConcreteProductA2 => "The result of the product A2."
  end.

(** The classes implementing [AbstractProductB]. *)
Inductive AbstractProductB : Type :=
| ConcreteProductB1
| ConcreteProductB2.

Definition usefulFunctionB (this : AbstractProductB) : string :=
  match this with
  | ConcreteProductB1 => "The result of the product B1."
  | ConcreteProductB2 => "The result of the product B2."
  end.

Definition anotherUsefulFunctionB (this : AbstractProductB)
  (collaborator : AbstractProductA) : string :=
  match this with
  | ConcreteProductB1 =>
      let result := usefulFunctionA collaborator in
      "The result of the B1 collaborating with the (" +:+ result +:+ ")"
  | ConcreteProductB2 =>
      let result := usefulFunctionA collaborator in
      "The result of the B2 collaborating with the (" +:+ result +:+ ")"
  end.

(** The classes implementing [AbstractFactory]. *)
Inductive AbstractFactory : Type :=
| ConcreteFactory1
| ConcreteFactory2.

Definition createProductA (this : AbstractFactory) : AbstractProductA :=
  match this with
  | ConcreteFactory1 => ConcreteProductA1
  | ConcreteFactory2 => ConcreteProductA2
  end.

Definition createProductB (this : AbstractFactory) : AbstractProductB :=
  match this with
  | ConcreteFactory1 => ConcreteProductB1
  | ConcreteFactory2 => ConcreteProductB2
  end.

Definition clientCode (factory : AbstractFactory) : Js unit unit :=
  let productA := createProductA factory in
  let productB := createProductB factory in
  console_log (usefulFunctionB productB) ;;;
  console_log (anotherUsefulFunctionB productB productA).

Definition script : Js unit unit :=
  console_log "Client: Testing client code with the first factory type..." ;;;
  clientCode ConcreteFactory1 ;;;
  console_log EmptyString ;;;
  console_log "Client: Testing the same client code with the second factory type..." ;;;
  clientCode ConcreteFactory2.

(** The variant a class belongs to, and the digit its texts carry. *)
Inductive variant : Type := V1 | V2.

Definition variant_of_factory (f : AbstractFactory) : variant :=
  match f with ConcreteFactory1 => V1 | ConcreteFactory2 => V2 end.

Definition variant_of_A (p : AbstractProductA) : variant :=
  match p with ConcreteProductA1 => V1 | ConcreteProductA2 => V2 end.

Definition variant_of_B (p : AbstractProductB) : variant :=
  match p with ConcreteProductB1 => V1 | ConcreteProductB2 => V2 end.

Definition digit (v : variant) : string :=
  match v with V1 => "1" | V2 => "2" end.

Definition other (v : variant) : variant :=
  match v with V1 => V2 | V2 => V1 end.

(** [occurs sub s]: [sub] is a substring of [s]. *)
Fixpoint occurs (sub s : string) : bool :=
  String.prefix sub s ||
  match s with
  | EmptyString => false
  | String _ s' => occurs sub s'
  end.

End abstractExample.

Module concreteExample.

(** The classes implementing [Button]. *)
Inductive Button : Type :=
| DarkButton
| LightButton.

Definition click (this : Button) : Js unit unit :=
  match this with
  | DarkButton => console_log "Clicked a dark button!"
  | LightButton => console_log "Clicked a light button!"
  end.

(** The classes implementing [Panel]. *)
Inductive Panel : Type :=
| DarkPanel
| LightPanel.

Definition display (this : Panel) : Js unit unit :=
  match this with
  | DarkPanel => console_log "Displaying a dark panel."
  | LightPanel => console_log "Displaying a light panel."
  end.

(** The classes implementing [UIAbstractFactory]. *)
Inductive UIAbstractFactory : Type :=
| DarkModeFactory
| LightModeFactory.

Definition createButton (this : UIAbstractFactory) : Button :=
  match this with
  | DarkModeFactory => DarkButton
  | LightModeFactory => LightButton
  end.

Definition createPanel (this : UIAbstractFactory) : Panel :=
  match this with
  | DarkModeFactory => DarkPanel
  | LightModeFactory => LightPanel
  end.

(** The client code, for the factory it is given. *)
Definition client (factory : UIAbstractFactory) : Js unit unit :=
  let button := createButton factory in
  click button ;;;
  let panel := createPanel factory in
  display panel.

Definition script : Js unit unit := client DarkModeFactory.

(** The mode a class belongs to, and the word its messages carry. *)
Inductive mode : Type := dark | light.

Definition mode_of_factory (f : UIAbstractFactory) : mode :=
  match f with DarkModeFactory => dark | LightModeFactory => light end.

Definition mode_of_Button (b : Button) : mode :=
  match b with DarkButton => dark | LightButton => light end.

Definition mode_of_Panel (p : Panel) : mode :=
  match p with DarkPanel => dark | LightPanel => light end.

Definition word (m : mode) : string :=
  match m with dark => "dark" | light => "light" end.

End concreteExample.

End abstractFactory.

(** ** The composers and the implementation references they hold *)

Inductive composer : Type :=
| of_Context (c : strategy.abstractExample.Context)
| of_Item (number : Type) (i : strategy.concreteExample.Item number)
| of_Invoker (i : command.abstractExample.Invoker)
| of_OrderManager (m : command.concreteExample.OrderManager).

(** One entry per field of the composer that refers to an implementation
    (a Strategy, a PaymentStrategy, a Command): whether that field is bound.
    An OrderManager has no such field, it is handed the command with each
    call of [execute]. *)
Definition bindings (c : composer) : list bool :=
  match c with
  | of_Context c => [is_bound (strategy.abstractExample.strategy c)]
  | of_Item _ i => [is_bound (strategy.concreteExample.paymentStrategy i)]
  | of_Invoker i =>
      [is_bound (command.abstractExample.onStart i);
       is_bound (command.abstractExample.onFinish i)]
  | of_OrderManager _ => []
  end.

(** A composer as its constructor leaves it, or after any calls of its
    setters.  The other methods ([doSomeBusinessLogic], [buy],
    [doSomethingImportant], [execute]) write no field of their composer. *)
Inductive reachable : composer -> Prop :=
| reach_new_Context s :
    reachable (of_Context (strategy.abstractExample.new_Context s))
| reach_setStrategy s c :
    reachable (of_Context c) ->
    reachable (of_Context (strategy.abstractExample.setStrategy s c))
| reach_new_Item number price s :
    reachable (of_Item number (strategy.concreteExample.new_Item price s))
| reach_new_Invoker :
    reachable (of_Invoker command.abstractExample.new_Invoker)
| reach_setOnStart cmd i :
    reachable (of_Invoker i) ->
    reachable (of_Invoker (command.abstractExample.setOnStart cmd i))
| reach_setOnFinish cmd i :
    reachable (of_Invoker i) ->
    reachable (of_Invoker (command.abstractExample.setOnFinish cmd i))
| reach_new_OrderManager h m :
    outcome (command.concreteExample.new_OrderManager h) = Normal m ->
    reachable (of_OrderManager m).

(** ** Running the primitives *)

Section RuntimeFacts.
Context {S A B : Type}.

Lemma bind_Normal (m : Js S A) (k : A -> Js S B) s a :
  outcome (m s) = Normal a ->
  bind m k s =
    Run (outcome (k a (final (m s)))) (final (k a (final (m s))))
        (printed (m s) ++ printed (k a (final (m s)))).
Proof. intros Hm. unfold bind. now rewrite Hm. Qed.

Lemma bind_Throw (m : Js S A) (k : A -> Js S B) s e :
  outcome (m s) = Throw e ->
  bind m k s = Run (Throw e) (final (m s)) (printed (m s)).
Proof. intros Hm. unfold bind. now rewrite Hm. Qed.

(** One statement run, the rest to go. *)
Lemma bind_run (m : Js S A) (k : A -> Js S B) s a s' out :
  m s = Run (Normal a) s' out ->
  bind m k s =
    Run (outcome (k a s')) (final (k a s')) (out ++ printed (k a s')).
Proof. intros Hm. unfold bind. now rewrite Hm. Qed.

(** Whatever follows, the lines already printed stay at the front of the
    console. *)
Lemma bind_printed_prefix (m : Js S A) (k : A -> Js S B) s :
  exists rest, printed (bind m k s) = printed (m s) ++ rest.
Proof.
  unfold bind. destruct (outcome (m s)); simpl.
  - eauto.
  - exists []. now rewrite app_nil_r.
Qed.

End RuntimeFacts.

Section ArrayFacts.
Context {E : Type}.
Implicit Types (h : store E) (a : list E) (r : ref).

Lemma Array_read_Some h r a :
  h !! r = Some a -> Array_read r h = Run (Normal a) h [].
Proof. intros Hr. unfold Array_read. now rewrite Hr. Qed.

Lemma Array_update_Some f h r a :
  h !! r = Some a -> Array_update f r h = Run (Normal tt) (<[r := f a]> h) [].
Proof. intros Hr. unfold Array_update. now rewrite Hr. Qed.

Lemma lookup_fresh h a : (h ++ [a]) !! List.length h = Some a.
Proof. now apply list_lookup_middle. Qed.

Lemma insert_fresh h a a' : <[List.length h := a']> (h ++ [a]) = h ++ [a'].
Proof.
  replace (List.length h) with (List.length h + 0) by lia.
  now rewrite insert_app_r.
Qed.

Lemma Array_update_fresh f h a :
  Array_update f (List.length h) (h ++ [a]) = Run (Normal tt) (h ++ [f a]) [].
Proof.
  rewrite (Array_update_Some f _ _ a) by apply lookup_fresh.
  now rewrite insert_fresh.
Qed.

Lemma Array_read_fresh h a :
  Array_read (List.length h) (h ++ [a]) = Run (Normal a) (h ++ [a]) [].
Proof. apply Array_read_Some, lookup_fresh. Qed.

(** Allocation moves no existing array. *)
Lemma Array_new_frame h a r :
  r < List.length h -> final (Array_new a h) !! r = h !! r.
Proof. intros Hr. simpl. now apply lookup_app_l. Qed.

End ArrayFacts.

(** ** [Array.prototype.sort] on strings *)

Lemma code_unit_le_flip x y : String.leb x y = false -> code_unit_le y x.
Proof.
  intros Hxy. destruct (String.leb_total x y) as [H | H]; [congruence | exact H].
Qed.

Lemma sort_insert_Permutation x l : Permutation (x :: l) (sort_insert x l).
Proof.
  induction l as [| y l IH]; simpl.
  - reflexivity.
  - destruct (String.leb x y).
    + reflexivity.
    + rewrite perm_swap. now constructor.
Qed.

Lemma code_unit_sort_Permutation l : Permutation l (code_unit_sort l).
Proof.
  induction l as [| x l IH]; simpl.
  - constructor.
  - rewrite <- sort_insert_Permutation. now constructor.
Qed.

Lemma sort_insert_HdRel z x l :
  code_unit_le z x -> HdRel code_unit_le z l -> HdRel code_unit_le z (sort_insert x l).
Proof.
  intros Hzx Hzl. destruct l as [| y l]; simpl.
  - now constructor.
  - destruct (String.leb x y); constructor; [exact Hzx |].
    now inversion Hzl.
Qed.

Lemma sort_insert_Sorted x l :
  Sorted code_unit_le l -> Sorted code_unit_le (sort_insert x l).
Proof.
  induction 1 as [| y l Hl IH Hy]; simpl.
  - repeat constructor.
  - destruct (String.leb x y) eqn:Hxy.
    + constructor; [now constructor | now constructor].
    + constructor; [exact IH |].
      apply sort_insert_HdRel; [now apply code_unit_le_flip | exact Hy].
Qed.

Lemma code_unit_sort_Sorted l : Sorted code_unit_le (code_unit_sort l).
Proof.
  induction l as [| x l IH]; simpl.
  - constructor.
  - now apply sort_insert_Sorted.
Qed.

(** ** The strategies *)

Section Strategies.
Import strategy.abstractExample.
Implicit Types (h : store string) (a : list string) (data : ref).

Lemma Array_sort_Some h data a :
  h !! data = Some a ->
  Array_sort data h = Run (Normal data) (<[data := code_unit_sort a]> h) [].
Proof.
  intros Hd. unfold Array_sort.
  rewrite (bind_Normal _ _ _ tt); now rewrite (Array_update_Some _ _ _ a Hd).
Qed.

Lemma Array_reverse_Some h data a :
  h !! data = Some a ->
  Array_reverse data h = Run (Normal data) (<[data := rev a]> h) [].
Proof.
  intros Hd. unfold Array_reverse.
  rewrite (bind_Normal _ _ _ tt); now rewrite (Array_update_Some _ _ _ a Hd).
Qed.

(** C1, as the code has it: [ConcreteStrategyA.doAlgorithm] sorts the array
    it is given in place and returns that same array, not a new one;
    [ConcreteStrategyB.doAlgorithm] reverses it in place and returns that same
    array.  A caller that kept the reference reads the sorted (reversed)
    elements afterwards; every other array of the store is as before. *)
Theorem doAlgorithm_in_place h data a :
  h !! data = Some a ->
  (outcome (doAlgorithm ConcreteStrategyA data h) = Normal data /\
   final (doAlgorithm ConcreteStrategyA data h) !! data = Some (code_unit_sort a) /\
   Sorted code_unit_le (code_unit_sort a) /\
   Permutation a (code_unit_sort a) /\
   forall r, r <> data ->
     final (doAlgorithm ConcreteStrategyA data h) !! r = h !! r) /\
  (outcome (doAlgorithm ConcreteStrategyB data h) = Normal data /\
   final (doAlgorithm ConcreteStrategyB data h) !! data = Some (rev a) /\
   forall r, r <> data ->
     final (doAlgorithm ConcreteStrategyB data h) !! r = h !! r).
Proof.
  intros Hd.
  assert (Hlt : data < List.length h) by (eapply lookup_lt_Some; exact Hd).
  split; simpl.
  - rewrite (Array_sort_Some h data a Hd); simpl.
    repeat split.
    + now apply list_lookup_insert_eq.
    + apply code_unit_sort_Sorted.
    + apply code_unit_sort_Permutation.
    + intros r Hr. now apply list_lookup_insert_ne.
  - rewrite (Array_reverse_Some h data a Hd); simpl.
    repeat split.
    + now apply list_lookup_insert_eq.
    + intros r Hr. now apply list_lookup_insert_ne.
Qed.

Lemma doAlgorithm_in_place_witness :
  [["b"; "a"; "c"]] !! 0 = Some ["b"; "a"; "c"] /\
  final (doAlgorithm ConcreteStrategyA 0 [["b"; "a"; "c"]]) !! 0
    = Some (code_unit_sort ["b"; "a"; "c"]) /\
  final (doAlgorithm ConcreteStrategyB 0 [["b"; "a"; "c"]]) !! 0
    = Some (rev ["b"; "a"; "c"]).
Proof.
  split; [reflexivity |].
  pose proof (doAlgorithm_in_place [["b"; "a"; "c"]] 0 ["b"; "a"; "c"] eq_refl)
    as [(_ & HA & _) (_ & HB & _)].
  split; [exact HA | exact HB].
Defined.

(** C1 as stated fails: with the array ["b","a"] behind the reference, both
    strategies return the reference they were given and the caller's array
    has changed. *)
Lemma doAlgorithm_mutates_input :
  [["b"; "a"]] !! 0 = Some ["b"; "a"] /\
  outcome (doAlgorithm ConcreteStrategyA 0 [["b"; "a"]]) = Normal 0 /\
  final (doAlgorithm ConcreteStrategyA 0 [["b"; "a"]]) !! 0 = Some ["a"; "b"] /\
  final (doAlgorithm ConcreteStrategyA 0 [["b"; "a"]]) !! 0 <> [["b"; "a"]] !! 0 /\
  outcome (doAlgorithm ConcreteStrategyB 0 [["b"; "a"]]) = Normal 0 /\
  final (doAlgorithm ConcreteStrategyB 0 [["b"; "a"]]) !! 0 = Some ["a"; "b"] /\
  final (doAlgorithm ConcreteStrategyB 0 [["b"; "a"]]) !! 0 <> [["b"; "a"]] !! 0.
Proof. repeat split; try reflexivity; discriminate. Qed.

(** What [doSomeBusinessLogic] does with a bound strategy, one statement
    after the other, on the fresh array of its literal. *)
Lemma doSomeBusinessLogic_bound (s : Strategy) (this : Context) :
  strategy this = bound s ->
  doSomeBusinessLogic this =
    (console_log "Context: Sorting data using the strategy (not sure how it'll do it)" ;;;
     data <- Array_new ["a"; "b"; "c"; "d"; "e"] ;;
     result <- doAlgorithm s data ;;
     line <- Array_join "," result ;;
     console_log line).
Proof. intros Hs. unfold doSomeBusinessLogic. now rewrite Hs. Qed.

Lemma doSomeBusinessLogic_A h :
  doSomeBusinessLogic (new_Context ConcreteStrategyA) h =
    Run (Normal tt) (h ++ [["a"; "b"; "c"; "d"; "e"]])
        ["Context: Sorting data using the strategy (not sure how it'll do it)";
         "a,b,c,d,e"].
Proof.
  unfold doSomeBusinessLogic, new_Context, bind; simpl.
  unfold Array_sort, Array_join, bind.
  rewrite Array_update_fresh; simpl.
  now rewrite Array_read_fresh.
Qed.

Lemma doSomeBusinessLogic_B h :
  doSomeBusinessLogic (new_Context ConcreteStrategyB) h =
    Run (Normal tt) (h ++ [["e"; "d"; "c"; "b"; "a"]])
        ["Context: Sorting data using the strategy (not sure how it'll do it)";
         "e,d,c,b,a"].
Proof.
  unfold doSomeBusinessLogic, new_Context, bind; simpl.
  unfold Array_reverse, Array_join, bind.
  rewrite Array_update_fresh; simpl.
  now rewrite Array_read_fresh.
Qed.

(** C5: on the array literal of [doSomeBusinessLogic], ConcreteStrategyA
    returns ["a","b","c","d","e"] and ConcreteStrategyB returns
    ["e","d","c","b","a"]; the Context prints "a,b,c,d,e" under the first and
    "e,d,c,b,a" under the second, whatever the store it starts from. *)
Theorem doSomeBusinessLogic_prints h :
  outcome ((data <- Array_new ["a"; "b"; "c"; "d"; "e"] ;;
            result <- doAlgorithm ConcreteStrategyA data ;;
            Array_read result) h)
    = Normal ["a"; "b"; "c"; "d"; "e"] /\
  outcome ((data <- Array_new ["a"; "b"; "c"; "d"; "e"] ;;
            result <- doAlgorithm ConcreteStrategyB data ;;
            Array_read result) h)
    = Normal ["e"; "d"; "c"; "b"; "a"] /\
  outcome (doSomeBusinessLogic (new_Context ConcreteStrategyA) h) = Normal tt /\
  printed (doSomeBusinessLogic (new_Context ConcreteStrategyA) h) =
    ["Context: Sorting data using the strategy (not sure how it'll do it)";
     "a,b,c,d,e"] /\
  outcome (doSomeBusinessLogic (new_Context ConcreteStrategyB) h) = Normal tt /\
  printed (doSomeBusinessLogic (new_Context ConcreteStrategyB) h) =
    ["Context: Sorting data using the strategy (not sure how it'll do it)";
     "e,d,c,b,a"].
Proof.
  split; [| split].
  - unfold bind; simpl. unfold Array_sort, bind.
    rewrite Array_update_fresh; simpl. now rewrite Array_read_fresh.
  - unfold bind; simpl. unfold Array_reverse, bind.
    rewrite Array_update_fresh; simpl. now rewrite Array_read_fresh.
  - rewrite doSomeBusinessLogic_A, doSomeBusinessLogic_B. now repeat split.
Qed.

(** The console of the whole example, from any store. *)
Lemma strategy_script_printed h :
  printed (script h) =
    ["Client: Strategy is set to normal sorting.";
     "Context: Sorting data using the strategy (not sure how it'll do it)";
     "a,b,c,d,e";
     EmptyString;
     "Client: Strategy is set to reverse sorting.";
     "Context: Sorting data using the strategy (not sure how it'll do it)";
     "e,d,c,b,a"].
Proof.
  unfold script.
  change (setStrategy ConcreteStrategyB (new_Context ConcreteStrategyA))
    with (new_Context ConcreteStrategyB).
  unfold bind at 1; simpl.
  unfold bind at 1. rewrite doSomeBusinessLogic_A; simpl.
  unfold Array_reverse, Array_join, bind.
  rewrite Array_update_fresh; simpl.
  now rewrite Array_read_fresh.
Qed.

Lemma setStrategy_replaces (s : Strategy) (this : Context) :
  setStrategy s this = new_Context s.
Proof. reflexivity. Qed.

(** C6: whatever strategy A a Context was constructed with and whatever
    calls it has received since, after [setStrategy(B)] a call of
    [doSomeBusinessLogic] hands the fresh array to B's [doAlgorithm] and to
    nothing else, and any number of calls run exactly as they do on a
    Context constructed with B. *)
Theorem setStrategy_rebinds (A B : Strategy) (history : list call) (n : nat) h :
  strategy (setStrategy B (after_calls (new_Context A) history)) = bound B /\
  doSomeBusinessLogic (setStrategy B (after_calls (new_Context A) history)) =
    (console_log "Context: Sorting data using the strategy (not sure how it'll do it)" ;;;
     data <- Array_new ["a"; "b"; "c"; "d"; "e"] ;;
     result <- doAlgorithm B data ;;
     line <- Array_join "," result ;;
     console_log line) /\
  repeat_doSomeBusinessLogic n
      (setStrategy B (after_calls (new_Context A) history)) h =
    repeat_doSomeBusinessLogic n (new_Context B) h.
Proof.
  rewrite setStrategy_replaces. split; [reflexivity |].
  split; [| reflexivity].
  now apply doSomeBusinessLogic_bound.
Qed.

End Strategies.

(** ** The Invoker *)

Section InvokerFacts.
Import command.abstractExample.

(** C3: on an Invoker that never received [setOnStart] or [setOnFinish],
    [doSomethingImportant] throws a TypeError at its first use of a command,
    the read of [execute] on the undefined [onStart]: only the opening line
    has been printed, no command has run, and the call does not complete
    normally with any value. *)
Theorem doSomethingImportant_unbound_throws :
  doSomethingImportant new_Invoker tt =
    Run (Throw (TypeError "execute")) tt
        ["Invoker: Does anybody want something done before I begin?"] /\
  forall v, outcome (doSomethingImportant new_Invoker tt) <> Normal v.
Proof. split; [reflexivity | intros v; discriminate]. Qed.

(** C10: with [onStart] bound to a command that completes and [onFinish]
    never set, [doSomethingImportant] prints its opening line, runs the
    [onStart] command, prints the two further narration lines and only then
    throws, at the read of [execute] on the undefined [onFinish].  The
    lines printed before the throw are all on the console. *)
Theorem doSomethingImportant_fails_late (c : Command) (out : list string) :
  execute c tt = Run (Normal tt) tt out ->
  doSomethingImportant (setOnStart c new_Invoker) tt =
    Run (Throw (TypeError "execute")) tt
        (["Invoker: Does anybody want something done before I begin?"]
           ++ out
           ++ ["Invoker: ...doing something really important...";
               "Invoker: Does anybody want something done after I finish?"]).
Proof.
  intros Hc. unfold doSomethingImportant, setOnStart, bind; simpl.
  now rewrite Hc.
Qed.

Lemma doSomethingImportant_fails_late_witness :
  execute (SimpleCommand "Say Hi!") tt =
    Run (Normal tt) tt
        ["SimpleCommand: See, I can do simple things like printing (Say Hi!)"] /\
  doSomethingImportant (setOnStart (SimpleCommand "Say Hi!") new_Invoker) tt =
    Run (Throw (TypeError "execute")) tt
        ["Invoker: Does anybody want something done before I begin?";
         "SimpleCommand: See, I can do simple things like printing (Say Hi!)";
         "Invoker: ...doing something really important...";
         "Invoker: Does anybody want something done after I finish?"].
Proof.
  split; [reflexivity |].
  apply (doSomethingImportant_fails_late (SimpleCommand "Say Hi!")
           ["SimpleCommand: See, I can do simple things like printing (Say Hi!)"]).
  reflexivity.
Defined.

(** The example itself binds both commands first and completes. *)
Lemma command_abstract_script :
  script tt =
    Run (Normal tt) tt
        ["Invoker: Does anybody want something done before I begin?";
         "SimpleCommand: See, I can do simple things like printing (Say Hi!)";
         "Invoker: ...doing something really important...";
         "Invoker: Does anybody want something done after I finish?";
         "ComplexCommand: Complex stuff should be done by a receiver object.";
         "Receiver: Working on (Send email.)";
         "Receiver: Also working on (Save report.)"].
Proof. reflexivity. Qed.

(** Which fields of an Invoker are bound after a sequence of setter calls:
    each exactly when its own setter is among them. *)
Lemma after_setters_bindings (cs : list setter) (this : Invoker) :
  is_bound (onStart (fold_left after_setter cs this)) =
    existsb is_setOnStart cs || is_bound (onStart this) /\
  is_bound (onFinish (fold_left after_setter cs this)) =
    existsb is_setOnFinish cs || is_bound (onFinish this).
Proof.
  revert this. induction cs as [| c cs IH]; intros this; simpl.
  - now split.
  - destruct (IH (after_setter this c)) as [-> ->].
    destruct c; simpl; split;
      now rewrite ?orb_true_r.
Qed.

End InvokerFacts.

(** ** The OrderManager *)

Section OrderManagerFacts.
Import command.concreteExample.
Implicit Types (h : store Order) (a : list Order) (manager : OrderManager).

Lemma cancel_run h manager a this_id :
  h !! orders manager = Some a ->
  manager_execute manager (CancelOrderCommand this_id) h =
    Run (Normal tt)
        (h ++ [List.filter (fun order => negb (String.eqb (id order) this_id)) a])
        ["You have canceled your order " +:+ this_id].
Proof.
  intros Ha. unfold manager_execute, CancelOrderCommand; simpl.
  unfold Array_filter, bind. now rewrite (Array_read_Some h _ a Ha).
Qed.

(** C2: [CancelOrderCommand(id)] run through [OrderManager.execute] prints
    'You have canceled your order <id>' and leaves the manager's orders list
    as it was: the filtered list is a fresh array that nothing refers to, no
    array of the store before the call is changed, and an order with that id
    that was in the list is still in it. *)
Theorem cancel_leaves_orders h manager a this_id :
  h !! orders manager = Some a ->
  outcome (manager_execute manager (CancelOrderCommand this_id) h) = Normal tt /\
  printed (manager_execute manager (CancelOrderCommand this_id) h) =
    ["You have canceled your order " +:+ this_id] /\
  final (manager_execute manager (CancelOrderCommand this_id) h) =
    h ++ [List.filter (fun order => negb (String.eqb (id order) this_id)) a] /\
  final (manager_execute manager (CancelOrderCommand this_id) h) !! orders manager =
    Some a /\
  (forall r, r < List.length h ->
     final (manager_execute manager (CancelOrderCommand this_id) h) !! r = h !! r) /\
  (In {| id := this_id |} a ->
   exists a',
     final (manager_execute manager (CancelOrderCommand this_id) h) !! orders manager
       = Some a' /\ In {| id := this_id |} a').
Proof.
  intros Ha.
  pose proof (cancel_run h manager a this_id Ha) as Hfinal.
  rewrite Hfinal; simpl.
  assert (Hkeep : forall r, r < List.length h ->
            (h ++ [List.filter (fun order => negb (String.eqb (id order) this_id)) a]) !! r
              = h !! r)
    by (intros r Hr; now apply lookup_app_l).
  assert (Hlt : orders manager < List.length h) by (eapply lookup_lt_Some; exact Ha).
  repeat split.
  - now rewrite Hkeep.
  - exact Hkeep.
  - intros Hin. exists a. now rewrite Hkeep.
Qed.

Lemma cancel_leaves_orders_witness :
  [[{| id := "1234" |}]] !! orders {| orders := 0 |} = Some [{| id := "1234" |}] /\
  final (manager_execute {| orders := 0 |} (CancelOrderCommand "1234")
           [[{| id := "1234" |}]]) !! orders {| orders := 0 |}
    = Some [{| id := "1234" |}].
Proof.
  split; [reflexivity |].
  exact (proj1 (proj2 (proj2 (proj2
    (cancel_leaves_orders [[{| id := "1234" |}]] {| orders := 0 |}
       [{| id := "1234" |}] "1234" eq_refl))))).
Defined.

Lemma track_run h manager this_id :
  manager_execute manager (TrackOrderCommand this_id) h =
    Run (Normal tt) h ["Your order " +:+ this_id +:+ " will arrive in 20 minutes."].
Proof. reflexivity. Qed.

(** C9: [TrackOrderCommand(id)] run through [OrderManager.execute] prints
    exactly 'Your order <id> will arrive in 20 minutes.' in every store and
    for every manager, and changes nothing: the orders list is not read. *)
Theorem track_ignores_orders h manager this_id :
  manager_execute manager (TrackOrderCommand this_id) h =
    Run (Normal tt) h ["Your order " +:+ this_id +:+ " will arrive in 20 minutes."].
Proof. apply track_run. Qed.

Lemma place_run h manager a order this_id :
  h !! orders manager = Some a ->
  manager_execute manager (PlaceOrderCommand order this_id) h =
    Run (Normal tt) (<[orders manager := a ++ [{| id := this_id |}]]> h)
        ["You have successfully ordered " +:+ order +:+ " (" +:+ this_id +:+ ")"].
Proof.
  intros Ha. unfold manager_execute, PlaceOrderCommand; simpl.
  unfold Array_push.
  now rewrite (bind_run _ _ _ _ _ _ (Array_update_Some _ h _ a Ha)).
Qed.

(** The whole example from any store: what it prints and what it leaves. *)
Lemma command_concrete_script h :
  script h =
    Run (Normal {| orders := List.length h |})
        (h ++ [[{| id := "1234" |}]] ++ [[]])
        ["You have successfully ordered Pad Thai (1234)";
         "Your order 1234 will arrive in 20 minutes.";
         "You have canceled your order 1234"].
Proof.
  unfold script.
  rewrite (bind_run _ _ h {| orders := List.length h |} (h ++ [[]]) [])
    by reflexivity.
  rewrite (bind_run _ _ (h ++ [[]]) tt (h ++ [[{| id := "1234" |}]])
             ["You have successfully ordered Pad Thai (1234)"]).
  2:{ rewrite (place_run _ _ []) by apply lookup_fresh.
      cbn [orders]. now rewrite insert_fresh. }
  rewrite (bind_run _ _ _ tt _ _ (track_run _ _ _)).
  rewrite (bind_run _ _ _ tt _ _
             (cancel_run (h ++ [[{| id := "1234" |}]]) {| orders := List.length h |}
                [{| id := "1234" |}] "1234" (lookup_fresh h _))).
  simpl. now rewrite <- app_assoc.
Qed.

(** C8: the three commands of the example, issued in the order place,
    track, cancel through one OrderManager, print their three messages in
    that order and nothing else, and the example completes. *)
Theorem commands_print_in_order h :
  printed (script h) =
    ["You have successfully ordered Pad Thai (1234)";
     "Your order 1234 will arrive in 20 minutes.";
     "You have canceled your order 1234"] /\
  (exists manager, outcome (script h) = Normal manager).
Proof.
  rewrite command_concrete_script; simpl. split; [reflexivity | eauto].
Qed.

End OrderManagerFacts.

(** ** The factories *)

Section FactoryFacts.
Import abstractFactory.abstractExample.

(** C7: both products of a concrete factory are of the factory's variant;
    [productB.anotherUsefulFunctionB(productA)] returns
    'The result of the B<v> collaborating with the (The result of the product A<v>.)'
    with the factory's digit <v> in both places: 'B<v>' and 'A<v>' occur in
    it and the other variant's digit occurs nowhere in it, and [clientCode] prints it and completes. *)
Theorem factory_products_one_variant (f : AbstractFactory) :
  variant_of_A (createProductA f) = variant_of_factory f /\
  variant_of_B (createProductB f) = variant_of_factory f /\
  anotherUsefulFunctionB (createProductB f) (createProductA f) =
    "The result of the B" +:+ digit (variant_of_factory f)
      +:+ " collaborating with the (The result of the product A"
      +:+ digit (variant_of_factory f) +:+ ".)" /\
  occurs ("B" +:+ digit (variant_of_factory f))
         (anotherUsefulFunctionB (createProductB f) (createProductA f)) = true /\
  occurs ("A" +:+ digit (variant_of_factory f))
         (anotherUsefulFunctionB (createProductB f) (createProductA f)) = true /\
  occurs (digit (other (variant_of_factory f)))
         (anotherUsefulFunctionB (createProductB f) (createProductA f)) = false /\
  clientCode f tt =
    Run (Normal tt) tt
        [usefulFunctionB (createProductB f);
         anotherUsefulFunctionB (createProductB f) (createProductA f)].
Proof. destruct f; repeat split; reflexivity. Qed.

(** A product B handed a product A of the other variant reports both. *)
Lemma mixed_variants_mix_text :
  anotherUsefulFunctionB ConcreteProductB1 ConcreteProductA2 =
    "The result of the B1 collaborating with the (The result of the product A2.)".
Proof. reflexivity. Qed.

Lemma factory_script :
  printed (script tt) =
    ["Client: Testing client code with the first factory type...";
     "The result of the product B1.";
     "The result of the B1 collaborating with the (The result of the product A1.)";
     EmptyString;
     "Client: Testing the same client code with the second factory type...";
     "The result of the product B2.";
     "The result of the B2 collaborating with the (The result of the product A2.)"].
Proof. reflexivity. Qed.

End FactoryFacts.

(** ** What the composers hold *)

Section ComposerFacts.
Import command.abstractExample.

Lemma fold_left_after_setter_snoc (cs : list setter) (c : setter) (this : Invoker) :
  fold_left after_setter (cs ++ [c]) this =
    after_setter (fold_left after_setter cs this) c.
Proof. now rewrite fold_left_app. Qed.

Lemma bindings_after_setters (cs : list setter) :
  bindings (of_Invoker (fold_left after_setter cs new_Invoker)) =
    [existsb is_setOnStart cs; existsb is_setOnFinish cs].
Proof.
  destruct (after_setters_bindings cs new_Invoker) as [Hs Hf].
  simpl in Hs, Hf. rewrite orb_false_r in Hs, Hf.
  unfold bindings. now rewrite Hs, Hf.
Qed.

(** C4, as the code has it: a Context and an Item hold exactly one
    implementation reference, bound by the constructor and bound ever after.
    An Invoker holds two, [onStart] and [onFinish]; both are unbound when it
    is constructed and each is bound exactly when its own setter has been
    called: an Invoker is what some sequence of setter calls has made of a
    new one, and whatever sequence of setter calls has made it, [onStart] is
    bound if and only if [setOnStart] is among them and [onFinish] if and
    only if [setOnFinish] is.  An OrderManager holds none. *)
Theorem composer_bindings (c : composer) :
  reachable c ->
  match c with
  | of_Context _ | of_Item _ _ => bindings c = [true]
  | of_Invoker i =>
      (exists cs : list setter, i = fold_left after_setter cs new_Invoker) /\
      (forall cs : list setter,
         i = fold_left after_setter cs new_Invoker ->
         bindings c = [existsb is_setOnStart cs; existsb is_setOnFinish cs])
  | of_OrderManager _ => bindings c = []
  end.
Proof.
  induction 1 as [s | s c _ _ | number price s | | cmd i _ IH | cmd i _ IH | h m _];
    try reflexivity.
  - split; [now exists [] |].
    intros cs Hcs. rewrite Hcs. apply bindings_after_setters.
  - destruct IH as [(cs & ->) _]. split.
    + exists (cs ++ [call_setOnStart cmd]).
      now rewrite fold_left_after_setter_snoc.
    + intros cs' Hcs. rewrite Hcs. apply bindings_after_setters.
  - destruct IH as [(cs & ->) _]. split.
    + exists (cs ++ [call_setOnFinish cmd]).
      now rewrite fold_left_after_setter_snoc.
    + intros cs' Hcs. rewrite Hcs. apply bindings_after_setters.
Qed.

Lemma composer_bindings_witness :
  (reachable (of_Invoker (setOnStart (SimpleCommand "Say Hi!") new_Invoker)) /\
   bindings (of_Invoker (setOnStart (SimpleCommand "Say Hi!") new_Invoker))
     = [true; false]) /\
  (reachable (of_Invoker
                (setOnStart (SimpleCommand "Hi again")
                   (setOnFinish (SimpleCommand "Bye") new_Invoker))) /\
   bindings (of_Invoker
               (setOnStart (SimpleCommand "Hi again")
                  (setOnFinish (SimpleCommand "Bye") new_Invoker)))
     = [true; true]) /\
  (reachable (of_Context
                (strategy.abstractExample.setStrategy
                   strategy.abstractExample.ConcreteStrategyB
                   (strategy.abstractExample.new_Context
                      strategy.abstractExample.ConcreteStrategyA))) /\
   bindings (of_Context
               (strategy.abstractExample.setStrategy
                  strategy.abstractExample.ConcreteStrategyB
                  (strategy.abstractExample.new_Context
                     strategy.abstractExample.ConcreteStrategyA))) = [true]).
Proof.
  assert (H1 : reachable
                 (of_Invoker (setOnStart (SimpleCommand "Say Hi!") new_Invoker)))
    by (apply reach_setOnStart, reach_new_Invoker).
  assert (H2 : reachable
                 (of_Invoker
                    (setOnStart (SimpleCommand "Hi again")
                       (setOnFinish (SimpleCommand "Bye") new_Invoker))))
    by (apply reach_setOnStart, reach_setOnFinish, reach_new_Invoker).
  assert (H3 : reachable (of_Context
               (strategy.abstractExample.setStrategy
                  strategy.abstractExample.ConcreteStrategyB
                  (strategy.abstractExample.new_Context
                     strategy.abstractExample.ConcreteStrategyA))))
    by (apply reach_setStrategy, reach_new_Context).
  split; [| split].
  - split; [exact H1 |].
    exact (proj2 (composer_bindings _ H1)
             [call_setOnStart (SimpleCommand "Say Hi!")] eq_refl).
  - split; [exact H2 |].
    exact (proj2 (composer_bindings _ H2)
             [call_setOnFinish (SimpleCommand "Bye");
              call_setOnStart (SimpleCommand "Hi again")] eq_refl).
  - split; [exact H3 | exact (composer_bindings _ H3)].
Defined.

(** C4 as stated fails: an Invoker is reachable, by construction alone,
    with two implementation references and neither of them bound. *)
Lemma new_Invoker_unbound :
  reachable (of_Invoker new_Invoker) /\
  bindings (of_Invoker new_Invoker) = [false; false] /\
  bindings (of_Invoker new_Invoker) <> [true].
Proof. split; [constructor | split; [reflexivity | discriminate]]. Qed.

End ComposerFacts.

(** ** More on the order of [sort()] *)

Section CodeUnitOrder.

Lemma code_unit_le_cases x y :
  code_unit_le x y <-> x = y \/ OrderedTypeEx.String_as_OT.lt x y.
Proof.
  unfold code_unit_le, String.leb.
  pose proof (OrderedTypeEx.String_as_OT.cmp_eq x y) as Heq.
  pose proof (OrderedTypeEx.String_as_OT.cmp_lt x y) as Hlt.
  unfold OrderedTypeEx.String_as_OT.cmp in Heq, Hlt.
  destruct (String.compare x y); split; intros H; try discriminate; auto.
  - left. now apply Heq.
  - right. now apply Hlt.
  - destruct H as [H | H]; [apply Heq in H | apply Hlt in H]; discriminate.
Qed.

#[local] Instance code_unit_le_trans : Transitive code_unit_le.
Proof.
  intros x y z Hxy Hyz. apply code_unit_le_cases.
  apply code_unit_le_cases in Hxy, Hyz.
  destruct Hxy as [-> | Hxy]; [exact Hyz |].
  destruct Hyz as [<- | Hyz]; [now right |].
  right. eapply OrderedTypeEx.String_as_OT.lt_trans; eassumption.
Qed.

#[local] Instance code_unit_le_antisym : AntiSymm (=) code_unit_le.
Proof. intros x y Hxy Hyx. now apply String.leb_antisym. Qed.

(** A sorted array is left as it is. *)
Lemma code_unit_sort_sorted l : Sorted code_unit_le l -> code_unit_sort l = l.
Proof.
  intros Hl. apply (Sorted_unique code_unit_le).
  - apply code_unit_sort_Sorted.
  - exact Hl.
  - symmetry. apply code_unit_sort_Permutation.
Qed.

(** The result depends on the elements only, not on their order. *)
Lemma code_unit_sort_canonical l l' :
  Permutation l l' -> code_unit_sort l = code_unit_sort l'.
Proof.
  intros Hp. apply (Sorted_unique code_unit_le).
  - apply code_unit_sort_Sorted.
  - apply code_unit_sort_Sorted.
  - rewrite <- !code_unit_sort_Permutation. exact Hp.
Qed.

Lemma code_unit_sort_rev_descending l :
  Sorted (flip code_unit_le) (rev (code_unit_sort l)).
Proof.
  rewrite rev_alt.
  exact (Sorted_reverse code_unit_le _ (code_unit_sort_Sorted l)).
Qed.

End CodeUnitOrder.

(** ** The strategies applied one after the other *)

Section StrategyComposition.
Import strategy.abstractExample.
Implicit Types (h : store string) (a : list string) (data : ref).

Lemma insert_twice h data a a' :
  <[data := a']> (<[data := a]> h) = <[data := a']> h.
Proof. apply list_insert_insert_eq. Qed.

Lemma insert_same h data a : h !! data = Some a -> <[data := a]> h = h.
Proof. apply list_insert_id. Qed.

(** X1: what ConcreteStrategyA leaves in an array depends on the elements
    of the array only, not on the order they were in: two arrays holding
    the same elements in any order hold the same sequence afterwards. *)
Theorem sort_strategy_order_blind h h' data data' a a' :
  h !! data = Some a ->
  h' !! data' = Some a' ->
  Permutation a a' ->
  final (doAlgorithm ConcreteStrategyA data h) !! data =
    final (doAlgorithm ConcreteStrategyA data' h') !! data'.
Proof.
  intros Hd Hd' Hp; simpl.
  rewrite (Array_sort_Some h data a Hd), (Array_sort_Some h' data' a' Hd'); simpl.
  rewrite !list_lookup_insert_eq by (eapply lookup_lt_Some; eassumption).
  f_equal. now apply code_unit_sort_canonical.
Qed.

Lemma sort_strategy_order_blind_witness :
  final (doAlgorithm ConcreteStrategyA 0 [["b"; "c"; "a"]]) !! 0 =
    final (doAlgorithm ConcreteStrategyA 1 [[]; ["c"; "a"; "b"]]) !! 1.
Proof.
  apply (sort_strategy_order_blind
           [["b"; "c"; "a"]] [[]; ["c"; "a"; "b"]] 0 1
           ["b"; "c"; "a"] ["c"; "a"; "b"] eq_refl eq_refl).
  change (Permutation (["b"] ++ ["c"; "a"]) (["c"; "a"] ++ ["b"])).
  apply Permutation_app_comm.
Defined.

(** X2: ConcreteStrategyA applied to its own result changes nothing more:
    sorting twice leaves the store that sorting once leaves, and returns the
    same reference. *)
Theorem sort_strategy_idempotent h data a :
  h !! data = Some a ->
  (result <- doAlgorithm ConcreteStrategyA data ;;
   doAlgorithm ConcreteStrategyA result) h =
    doAlgorithm ConcreteStrategyA data h.
Proof.
  intros Hd; simpl.
  assert (Hlt : data < List.length h) by (eapply lookup_lt_Some; exact Hd).
  rewrite (bind_run _ _ _ _ _ _ (Array_sort_Some h data a Hd)).
  rewrite (Array_sort_Some _ data (code_unit_sort a))
    by now apply list_lookup_insert_eq.
  rewrite (Array_sort_Some h data a Hd); simpl.
  rewrite insert_twice.
  now rewrite (code_unit_sort_sorted _ (code_unit_sort_Sorted a)).
Qed.

Lemma sort_strategy_idempotent_witness :
  (result <- doAlgorithm ConcreteStrategyA 0 ;;
   doAlgorithm ConcreteStrategyA result) [["b"; "a"; "b"]] =
    doAlgorithm ConcreteStrategyA 0 [["b"; "a"; "b"]].
Proof.
  exact (sort_strategy_idempotent [["b"; "a"; "b"]] 0 ["b"; "a"; "b"] eq_refl).
Defined.

(** X3: ConcreteStrategyB applied to its own result undoes itself: after
    two reversals the store is exactly what it was and the reference returned
    is the one given. *)
Theorem reverse_strategy_involutive h data a :
  h !! data = Some a ->
  (result <- doAlgorithm ConcreteStrategyB data ;;
   doAlgorithm ConcreteStrategyB result) h =
    Run (Normal data) h [].
Proof.
  intros Hd; simpl.
  assert (Hlt : data < List.length h) by (eapply lookup_lt_Some; exact Hd).
  rewrite (bind_run _ _ _ _ _ _ (Array_reverse_Some h data a Hd)).
  rewrite (Array_reverse_Some _ data (rev a))
    by now apply list_lookup_insert_eq.
  simpl. rewrite insert_twice, rev_involutive.
  now rewrite (insert_same h data a Hd).
Qed.

Lemma reverse_strategy_involutive_witness :
  (result <- doAlgorithm ConcreteStrategyB 0 ;;
   doAlgorithm ConcreteStrategyB result) [["x"; "y"; "z"]] =
    Run (Normal 0) [["x"; "y"; "z"]] [].
Proof.
  exact (reverse_strategy_involutive [["x"; "y"; "z"]] 0 ["x"; "y"; "z"] eq_refl).
Defined.

(** X4: a reversal before the sort makes no difference: ConcreteStrategyA
    applied to the result of ConcreteStrategyB leaves the store and returns
    the reference that ConcreteStrategyA alone does. *)
Theorem sort_after_reverse h data a :
  h !! data = Some a ->
  (result <- doAlgorithm ConcreteStrategyB data ;;
   doAlgorithm ConcreteStrategyA result) h =
    doAlgorithm ConcreteStrategyA data h.
Proof.
  intros Hd; simpl.
  assert (Hlt : data < List.length h) by (eapply lookup_lt_Some; exact Hd).
  rewrite (bind_run _ _ _ _ _ _ (Array_reverse_Some h data a Hd)).
  rewrite (Array_sort_Some _ data (rev a))
    by now apply list_lookup_insert_eq.
  rewrite (Array_sort_Some h data a Hd); simpl.
  rewrite insert_twice.
  now rewrite (code_unit_sort_canonical (rev a) a)
    by (symmetry; apply Permutation_rev).
Qed.

Lemma sort_after_reverse_witness :
  (result <- doAlgorithm ConcreteStrategyB 0 ;;
   doAlgorithm ConcreteStrategyA result) [["b"; "c"; "a"]] =
    doAlgorithm ConcreteStrategyA 0 [["b"; "c"; "a"]].
Proof.
  exact (sort_after_reverse [["b"; "c"; "a"]] 0 ["b"; "c"; "a"] eq_refl).
Defined.

(** X5: ConcreteStrategyB applied to the result of ConcreteStrategyA leaves
    the array in descending code-unit order: the reverse of the sorted
    elements, each element at least as large as the next. *)
Theorem reverse_after_sort h data a :
  h !! data = Some a ->
  outcome ((result <- doAlgorithm ConcreteStrategyA data ;;
            doAlgorithm ConcreteStrategyB result) h) = Normal data /\
  final ((result <- doAlgorithm ConcreteStrategyA data ;;
          doAlgorithm ConcreteStrategyB result) h) !! data
    = Some (rev (code_unit_sort a)) /\
  Sorted (flip code_unit_le) (rev (code_unit_sort a)) /\
  Permutation a (rev (code_unit_sort a)).
Proof.
  intros Hd; simpl.
  assert (Hlt : data < List.length h) by (eapply lookup_lt_Some; exact Hd).
  rewrite (bind_run _ _ _ _ _ _ (Array_sort_Some h data a Hd)).
  rewrite (Array_reverse_Some _ data (code_unit_sort a))
    by now apply list_lookup_insert_eq.
  simpl. rewrite insert_twice.
  repeat split.
  - now apply list_lookup_insert_eq.
  - apply code_unit_sort_rev_descending.
  - rewrite <- Permutation_rev. apply code_unit_sort_Permutation.
Qed.

Lemma reverse_after_sort_witness :
  final ((result <- doAlgorithm ConcreteStrategyA 0 ;;
          doAlgorithm ConcreteStrategyB result) [["b"; "c"; "a"]]) !! 0
    = Some (rev (code_unit_sort ["b"; "c"; "a"])).
Proof.
  exact (proj1 (proj2
    (reverse_after_sort [["b"; "c"; "a"]] 0 ["b"; "c"; "a"] eq_refl))).
Defined.

End StrategyComposition.

(** ** The Context with any strategy *)

Section ContextFacts.
Import strategy.abstractExample.
Implicit Types (h : store string) (s : Strategy).

Lemma bind_throw_run {S A B} (m : Js S A) (k : A -> Js S B) st e st' out :
  m st = Run (Throw e) st' out -> bind m k st = Run (Throw e) st' out.
Proof. intros Hm. unfold bind. now rewrite Hm. Qed.

Lemma repeat_doSomeBusinessLogic_run s literal line n :
  (forall h,
     doSomeBusinessLogic (new_Context s) h =
       Run (Normal tt) (h ++ [literal]) line) ->
  forall h,
    repeat_doSomeBusinessLogic n (new_Context s) h =
      Run (Normal tt) (h ++ repeat literal n) (concat (repeat line n)).
Proof.
  intros Hone. induction n as [| n IH]; intros h; simpl.
  - unfold ret. now rewrite app_nil_r.
  - rewrite (bind_run _ _ _ _ _ _ (Hone h)), IH; simpl.
    now rewrite <- app_assoc.
Qed.

(** X6: calls of [doSomeBusinessLogic] do not interfere.  Under
    ConcreteStrategyA, [n] calls in a row print the same two lines [n] times
    and complete; each call leaves one more array in the store, the sorted
    literal, and no array that was there before is changed.  The same holds
    under ConcreteStrategyB with the reversed literal. *)
Theorem doSomeBusinessLogic_repeatable (n : nat) h :
  repeat_doSomeBusinessLogic n (new_Context ConcreteStrategyA) h =
    Run (Normal tt)
        (h ++ repeat ["a"; "b"; "c"; "d"; "e"] n)
        (concat (repeat
           ["Context: Sorting data using the strategy (not sure how it'll do it)";
            "a,b,c,d,e"] n)) /\
  repeat_doSomeBusinessLogic n (new_Context ConcreteStrategyB) h =
    Run (Normal tt)
        (h ++ repeat ["e"; "d"; "c"; "b"; "a"] n)
        (concat (repeat
           ["Context: Sorting data using the strategy (not sure how it'll do it)";
            "e,d,c,b,a"] n)).
Proof.
  split.
  - apply repeat_doSomeBusinessLogic_run, doSomeBusinessLogic_A.
  - apply repeat_doSomeBusinessLogic_run, doSomeBusinessLogic_B.
Qed.

(** X7: the Context forwards what its strategy returns, whatever the
    strategy: when [doAlgorithm] completes on the fresh literal with a
    reference to an array, [doSomeBusinessLogic] completes, leaves the store
    the strategy left, and prints its opening line, then what the strategy
    printed, then the elements of that array joined by commas. *)
Theorem doSomeBusinessLogic_forwards s h result h' out elements :
  doAlgorithm s (List.length h) (h ++ [["a"; "b"; "c"; "d"; "e"]]) =
    Run (Normal result) h' out ->
  h' !! result = Some elements ->
  doSomeBusinessLogic (new_Context s) h =
    Run (Normal tt) h'
        (["Context: Sorting data using the strategy (not sure how it'll do it)"]
           ++ out ++ [String.concat "," elements]).
Proof.
  intros Hs He.
  rewrite (doSomeBusinessLogic_bound s) by reflexivity.
  rewrite (bind_run _ _ h tt h
             ["Context: Sorting data using the strategy (not sure how it'll do it)"])
    by reflexivity.
  rewrite (bind_run _ _ h (List.length h) (h ++ [["a"; "b"; "c"; "d"; "e"]]) [])
    by reflexivity.
  rewrite (bind_run _ _ _ _ _ _ Hs).
  unfold Array_join.
  rewrite (bind_run _ _ h' (String.concat "," elements) h' []).
  2:{ now rewrite (bind_run _ _ _ _ _ _ (Array_read_Some h' result elements He)). }
  reflexivity.
Qed.

Lemma doSomeBusinessLogic_forwards_witness :
  doSomeBusinessLogic (new_Context ConcreteStrategyB) [] =
    Run (Normal tt) [["e"; "d"; "c"; "b"; "a"]]
        ["Context: Sorting data using the strategy (not sure how it'll do it)";
         "e,d,c,b,a"].
Proof.
  exact (doSomeBusinessLogic_forwards ConcreteStrategyB [] 0
           [["e"; "d"; "c"; "b"; "a"]] [] ["e"; "d"; "c"; "b"; "a"]
           eq_refl eq_refl).
Defined.

(** X8: a throw of the strategy goes through the Context: when
    [doAlgorithm] throws on the fresh literal, [doSomeBusinessLogic] throws
    the same error, keeps the store and the lines the strategy left, and
    prints no result line. *)
Theorem doSomeBusinessLogic_propagates s h e h' out :
  doAlgorithm s (List.length h) (h ++ [["a"; "b"; "c"; "d"; "e"]]) =
    Run (Throw e) h' out ->
  doSomeBusinessLogic (new_Context s) h =
    Run (Throw e) h'
        (["Context: Sorting data using the strategy (not sure how it'll do it)"]
           ++ out).
Proof.
  intros Hs.
  rewrite (doSomeBusinessLogic_bound s) by reflexivity.
  rewrite (bind_run _ _ h tt h
             ["Context: Sorting data using the strategy (not sure how it'll do it)"])
    by reflexivity.
  rewrite (bind_run _ _ h (List.length h) (h ++ [["a"; "b"; "c"; "d"; "e"]]) [])
    by reflexivity.
  now rewrite (bind_throw_run _ _ _ _ _ _ Hs).
Qed.

Lemma doSomeBusinessLogic_propagates_witness :
  doSomeBusinessLogic
    (new_Context {| doAlgorithm _ := throw (TypeError "length") |}) [] =
    Run (Throw (TypeError "length")) [["a"; "b"; "c"; "d"; "e"]]
        ["Context: Sorting data using the strategy (not sure how it'll do it)"].
Proof.
  exact (doSomeBusinessLogic_propagates
           {| doAlgorithm _ := throw (TypeError "length") |} []
           (TypeError "length") [["a"; "b"; "c"; "d"; "e"]] [] eq_refl).
Defined.

End ContextFacts.

(** ** The Invoker with any commands *)

Section InvokerRuns.
Import command.abstractExample.

(** X9: with both commands bound and both completing,
    [doSomethingImportant] completes and prints, in this order: its opening
    line, what the [onStart] command prints, its two further lines, what the
    [onFinish] command prints. *)
Theorem doSomethingImportant_runs_both (i : Invoker) (c1 c2 : Command)
    (out1 out2 : list string) :
  onStart i = bound c1 ->
  onFinish i = bound c2 ->
  execute c1 tt = Run (Normal tt) tt out1 ->
  execute c2 tt = Run (Normal tt) tt out2 ->
  doSomethingImportant i tt =
    Run (Normal tt) tt
        (["Invoker: Does anybody want something done before I begin?"]
           ++ out1
           ++ ["Invoker: ...doing something really important...";
               "Invoker: Does anybody want something done after I finish?"]
           ++ out2).
Proof.
  intros Hs Hf H1 H2.
  unfold doSomethingImportant, bind; rewrite Hs, Hf; simpl.
  rewrite H1; simpl. now rewrite H2.
Qed.

Lemma doSomethingImportant_runs_both_witness :
  doSomethingImportant
    (setOnFinish (ComplexCommand new_Receiver "Send email" "Save report")
       (setOnStart (SimpleCommand "Say Hi!") new_Invoker)) tt =
    Run (Normal tt) tt
        ["Invoker: Does anybody want something done before I begin?";
         "SimpleCommand: See, I can do simple things like printing (Say Hi!)";
         "Invoker: ...doing something really important...";
         "Invoker: Does anybody want something done after I finish?";
         "ComplexCommand: Complex stuff should be done by a receiver object.";
         "Receiver: Working on (Send email.)";
         "Receiver: Also working on (Save report.)"].
Proof.
  exact (doSomethingImportant_runs_both
           (setOnFinish (ComplexCommand new_Receiver "Send email" "Save report")
              (setOnStart (SimpleCommand "Say Hi!") new_Invoker))
           (SimpleCommand "Say Hi!")
           (ComplexCommand new_Receiver "Send email" "Save report")
           ["SimpleCommand: See, I can do simple things like printing (Say Hi!)"]
           ["ComplexCommand: Complex stuff should be done by a receiver object.";
            "Receiver: Working on (Send email.)";
            "Receiver: Also working on (Save report.)"]
           eq_refl eq_refl eq_refl eq_refl).
Defined.

(** X10: an unbound [onStart] stops the Invoker at once, whatever
    [onFinish] holds: [doSomethingImportant] throws the TypeError after its
    opening line, and a bound [onFinish] command is never run. *)
Theorem doSomethingImportant_needs_onStart (i : Invoker) :
  onStart i = undefined ->
  doSomethingImportant i tt =
    Run (Throw (TypeError "execute")) tt
        ["Invoker: Does anybody want something done before I begin?"].
Proof.
  intros Hs. unfold doSomethingImportant, bind; now rewrite Hs.
Qed.

Lemma doSomethingImportant_needs_onStart_witness :
  doSomethingImportant (setOnFinish (SimpleCommand "Bye") new_Invoker) tt =
    Run (Throw (TypeError "execute")) tt
        ["Invoker: Does anybody want something done before I begin?"].
Proof.
  exact (doSomethingImportant_needs_onStart
           (setOnFinish (SimpleCommand "Bye") new_Invoker) eq_refl).
Defined.

(** X11: a throw of the [onStart] command goes through the Invoker:
    [doSomethingImportant] throws the same error after its opening line and
    the lines of the command; nothing of its own follows and the [onFinish]
    command is not run. *)
Theorem doSomethingImportant_propagates (i : Invoker) (c : Command)
    (e : error) (out : list string) :
  onStart i = bound c ->
  execute c tt = Run (Throw e) tt out ->
  doSomethingImportant i tt =
    Run (Throw e) tt
        (["Invoker: Does anybody want something done before I begin?"] ++ out).
Proof.
  intros Hs Hc. unfold doSomethingImportant, bind; rewrite Hs; simpl.
  now rewrite Hc.
Qed.

Lemma doSomethingImportant_propagates_witness :
  doSomethingImportant
    (setOnFinish (SimpleCommand "Bye")
       (setOnStart
          {| execute := console_log "working" ;;; throw (TypeError "payload") |}
          new_Invoker)) tt =
    Run (Throw (TypeError "payload")) tt
        ["Invoker: Does anybody want something done before I begin?"; "working"].
Proof.
  exact (doSomethingImportant_propagates
           (setOnFinish (SimpleCommand "Bye")
              (setOnStart
                 {| execute := console_log "working" ;;; throw (TypeError "payload") |}
                 new_Invoker))
           {| execute := console_log "working" ;;; throw (TypeError "payload") |}
           (TypeError "payload") ["working"] eq_refl eq_refl).
Defined.

Lemma after_setters_keep_onStart (cs : list setter) (i : Invoker) :
  existsb is_setOnStart cs = false ->
  onStart (fold_left after_setter cs i) = onStart i.
Proof.
  revert i. induction cs as [| c cs IH]; intros i; simpl; [reflexivity |].
  destruct c; simpl; [discriminate |].
  intros Hcs. now rewrite IH.
Qed.

Lemma after_setters_keep_onFinish (cs : list setter) (i : Invoker) :
  existsb is_setOnFinish cs = false ->
  onFinish (fold_left after_setter cs i) = onFinish i.
Proof.
  revert i. induction cs as [| c cs IH]; intros i; simpl; [reflexivity |].
  destruct c; simpl; [| discriminate].
  intros Hcs. now rewrite IH.
Qed.

(** X12: the last setter call decides.  After any sequence of setter
    calls, [onStart] is the command of the last [setOnStart] among them and
    [onFinish] the command of the last [setOnFinish]; calls of the other
    setter in between change neither. *)
Theorem last_setter_wins (before after : list setter) (before' after' : list setter)
    (c d : Command) (i : Invoker) :
  existsb is_setOnStart after = false ->
  existsb is_setOnFinish after' = false ->
  onStart (fold_left after_setter (before ++ call_setOnStart c :: after) i)
    = bound c /\
  onFinish (fold_left after_setter (before' ++ call_setOnFinish d :: after') i)
    = bound d.
Proof.
  intros Hs Hf. rewrite !fold_left_app; simpl. split.
  - now rewrite after_setters_keep_onStart.
  - now rewrite after_setters_keep_onFinish.
Qed.

Lemma last_setter_wins_witness :
  onStart (fold_left after_setter
             ([call_setOnStart (SimpleCommand "first")]
                ++ call_setOnStart (SimpleCommand "second")
                     :: [call_setOnFinish (SimpleCommand "third")])
             new_Invoker)
    = bound (SimpleCommand "second") /\
  onFinish (fold_left after_setter
              ([] ++ call_setOnFinish (SimpleCommand "third")
                       :: [call_setOnStart (SimpleCommand "fourth")])
              new_Invoker)
    = bound (SimpleCommand "third").
Proof.
  exact (last_setter_wins
           [call_setOnStart (SimpleCommand "first")]
           [call_setOnFinish (SimpleCommand "third")]
           [] [call_setOnStart (SimpleCommand "fourth")]
           (SimpleCommand "second") (SimpleCommand "third") new_Invoker
           eq_refl eq_refl).
Defined.

End InvokerRuns.

(** ** The OrderManager over any sequence of commands *)

Section OrderManagerRuns.
Import command.concreteExample.
Implicit Types (h : store Order) (a : list Order) (manager : OrderManager).

Lemma request_run manager (q : request) h a :
  h !! orders manager = Some a ->
  exists h1,
    manager_execute manager (command_of q) h = Run (Normal tt) h1 [answer q] /\
    h1 !! orders manager = Some (a ++ placed q) /\
    List.length h <= List.length h1 /\
    forall r, r < List.length h -> r <> orders manager -> h1 !! r = h !! r.
Proof.
  intros Ha.
  assert (Hlt : orders manager < List.length h) by (eapply lookup_lt_Some; exact Ha).
  destruct q as [order this_id | this_id | this_id];
    cbn [command_of answer placed].
  - eexists. split; [exact (place_run h manager a order this_id Ha) |].
    split; [now apply list_lookup_insert_eq |].
    split; [now rewrite length_insert |].
    intros r _ Hr. now apply list_lookup_insert_ne.
  - exists h. split; [apply track_run |].
    rewrite app_nil_r. repeat split; auto.
  - eexists. split; [exact (cancel_run h manager a this_id Ha) |].
    rewrite app_nil_r.
    split; [now rewrite lookup_app_l |].
    split; [rewrite length_app; lia |].
    intros r Hr _. now apply lookup_app_l.
Qed.

(** X13: through [OrderManager.execute] the orders list only ever grows.
    After any sequence of place, track and cancel commands, all of them have
    completed, each has printed its own line, in the order issued, and the
    manager's list is the list before followed by one order per place
    command, in the order placed: no cancel has removed anything, and the
    same id placed twice is in the list twice.  No other array that was in
    the store is changed. *)
Theorem orders_only_grow manager (qs : list request) h a :
  h !! orders manager = Some a ->
  outcome (execute_all manager qs h) = Normal tt /\
  printed (execute_all manager qs h) = map answer qs /\
  final (execute_all manager qs h) !! orders manager
    = Some (a ++ flat_map placed qs) /\
  forall r, r < List.length h -> r <> orders manager ->
    final (execute_all manager qs h) !! r = h !! r.
Proof.
  revert h a. induction qs as [| q qs IH]; intros h a Ha.
  - simpl. rewrite app_nil_r. repeat split; auto.
  - destruct (request_run manager q h a Ha) as (h1 & Hrun & Ha1 & Hlen & Hframe).
    destruct (IH h1 _ Ha1) as (Hout & Hprinted & Hfinal & Hrest).
    cbn [execute_all]. rewrite (bind_run _ _ _ _ _ _ Hrun); simpl.
    split; [exact Hout |].
    split; [now rewrite Hprinted |].
    split; [now rewrite Hfinal, <- app_assoc |].
    intros r Hr Hne. rewrite Hrest by (auto; lia). now apply Hframe.
Qed.

Lemma orders_only_grow_witness :
  final (execute_all {| orders := 0 |}
           [place "Pad Thai" "1234"; cancel "1234"; place "Tea" "1234"; track "9"]
           [[{| id := "1" |}]]) !! 0
    = Some [{| id := "1" |}; {| id := "1234" |}; {| id := "1234" |}].
Proof.
  exact (proj1 (proj2 (proj2
    (orders_only_grow {| orders := 0 |}
       [place "Pad Thai" "1234"; cancel "1234"; place "Tea" "1234"; track "9"]
       [[{| id := "1" |}]] [{| id := "1" |}] eq_refl)))).
Defined.

(** X14: every OrderManager has a list of its own.  Of two managers
    constructed one after the other, an order placed through the first is in
    the first one's list only; the second one's list stays empty, and the
    arrays that were in the store are as before. *)
Theorem managers_do_not_share h (order this_id : string) :
  (m1 <- new_OrderManager ;;
   m2 <- new_OrderManager ;;
   manager_execute m1 (PlaceOrderCommand order this_id) ;;;
   ret (m1, m2)) h =
    Run (Normal ({| orders := List.length h |}, {| orders := S (List.length h) |}))
        (h ++ [[{| id := this_id |}]; []])
        ["You have successfully ordered " +:+ order +:+ " (" +:+ this_id +:+ ")"].
Proof.
  unfold new_OrderManager.
  rewrite (bind_run _ _ h {| orders := List.length h |} (h ++ [[]]) [])
    by reflexivity.
  rewrite (bind_run _ _ (h ++ [[]]) {| orders := S (List.length h) |}
             ((h ++ [[]]) ++ [[]]) []).
  2:{ unfold bind, Array_new; simpl. rewrite length_app; simpl.
      now replace (List.length h + 1) with (S (List.length h)) by lia. }
  rewrite (bind_run _ _ ((h ++ [[]]) ++ [[]]) tt (h ++ [[{| id := this_id |}]; []])
             ["You have successfully ordered " +:+ order +:+ " (" +:+ this_id +:+ ")"]).
  2:{ rewrite <- app_assoc.
      rewrite (place_run (h ++ [[]] ++ [[]]) {| orders := List.length h |} []
                 order this_id)
        by now apply list_lookup_middle.
      cbn [orders]. f_equal.
      replace (List.length h) with (List.length h + 0) by lia.
      now rewrite insert_app_r. }
  reflexivity.
Qed.

(** X15: the array [CancelOrderCommand.execute] computes, and then drops,
    is the removal the message speaks of: it holds the orders of the
    manager's list whose id differs from the cancelled one, and it is a copy
    of the whole list when no order has that id. *)
Theorem cancel_computes_removal h manager a this_id :
  h !! orders manager = Some a ->
  exists kept,
    final (manager_execute manager (CancelOrderCommand this_id) h)
      !! List.length h = Some kept /\
    (forall o, In o kept <-> In o a /\ id o <> this_id) /\
    (~ In {| id := this_id |} a -> kept = a).
Proof.
  intros Ha. rewrite (cancel_run h manager a this_id Ha); simpl.
  eexists. split; [apply lookup_fresh |]. split.
  - intros o. rewrite filter_In, negb_true_iff, String.eqb_neq. tauto.
  - intros Hno. apply forallb_filter_id, forallb_forall.
    intros [i] Hi. apply negb_true_iff, String.eqb_neq; simpl.
    intros ->. now apply Hno.
Qed.

Lemma cancel_computes_removal_witness :
  exists kept,
    final (manager_execute {| orders := 0 |} (CancelOrderCommand "2")
             [[{| id := "1" |}; {| id := "2" |}; {| id := "3" |}]])
      !! List.length [[{| id := "1" |}; {| id := "2" |}; {| id := "3" |}]]
      = Some kept /\
    (forall o, In o kept <->
       In o [{| id := "1" |}; {| id := "2" |}; {| id := "3" |}] /\ id o <> "2") /\
    (~ In {| id := "2" |} [{| id := "1" |}; {| id := "2" |}; {| id := "3" |}] ->
     kept = [{| id := "1" |}; {| id := "2" |}; {| id := "3" |}]).
Proof.
  exact (cancel_computes_removal
           [[{| id := "1" |}; {| id := "2" |}; {| id := "3" |}]] {| orders := 0 |}
           [{| id := "1" |}; {| id := "2" |}; {| id := "3" |}] "2" eq_refl).
Defined.

End OrderManagerRuns.

(** ** The factories beyond one variant *)

Section FactoryMixing.
Import abstractFactory.abstractExample.

(** X16: a product B works with any product A and puts the text of the
    one it is given into its own: the result carries the digit of B's
    variant and the text of A, and the digit of the other variant occurs in
    it exactly when the collaborator is of the other variant. *)
Theorem collaboration_mixes_exactly (b : AbstractProductB) (a : AbstractProductA) :
  anotherUsefulFunctionB b a =
    "The result of the B" +:+ digit (variant_of_B b)
      +:+ " collaborating with the (" +:+ usefulFunctionA a +:+ ")" /\
  (occurs (digit (other (variant_of_B b))) (anotherUsefulFunctionB b a) = true
   <-> variant_of_A a <> variant_of_B b).
Proof.
  destruct b, a; (split; [reflexivity |]); simpl;
    split; intros H; try reflexivity; try discriminate; try (now contradict H).
Qed.

End FactoryMixing.

Section UIFactoryFacts.
Import abstractFactory.concreteExample.

(** X17: the button and the panel of a UI factory are of the factory's
    mode, and the client code run with that factory prints the click line
    and then the display line, both with the word of that mode, and
    completes. *)
Theorem ui_factory_one_mode (f : UIAbstractFactory) :
  mode_of_Button (createButton f) = mode_of_factory f /\
  mode_of_Panel (createPanel f) = mode_of_factory f /\
  client f tt =
    Run (Normal tt) tt
        ["Clicked a " +:+ word (mode_of_factory f) +:+ " button!";
         "Displaying a " +:+ word (mode_of_factory f) +:+ " panel."].
Proof. destruct f; repeat split; reflexivity. Qed.

End UIFactoryFacts.
